(** * sg3-rs: SCSI INQUIRY codec, shallow embedding of src/lib.rs

    Bytes are [N] values (a [u8] of the source is an [N] below 256).
    Rust panics are made explicit: an accessor that can panic returns an
    [access] value, [Panic] carrying the reason Rust would print. *)

From Stdlib Require Import String.
From Stdlib Require Import List Arith NArith Bool Lia.
Import ListNotations.
Open Scope N_scope.

(** ** Enumerations (lib.rs lines 70-137) *)

Inductive PeripheralQualifier :=
| PQ_Connected | PQ_NotConnected | PQ_Reserved | PQ_NotCapable | PQ_VS.

Inductive PeripheralDeviceType :=
| DirectAccess | SequentialAccess | Printer | Processor | WriteOnce | CdDvd
| Obsolete | OpticalMemory | MediaChanger | StorageArrayController
| EnclosureServices | SimplifiedDirectAccess | OpticalCardReader
| ObjectBasedStorage | AutomationDriveInterface | PDT_Reserved.

Inductive ProtocolIdentifier :=
| Fcp | Spi | Ssa | Sbp | Srp | IScsi | Spl | Adt | Acs | Uas | Sop
| PI_Reserved | Unspecified.

Inductive Association :=
| AddressedLogicalUnit | TargetPort | ScsiTargetDevice | A_Reserved.

Inductive DesignatorType :=
| DT_VS | T10VendorId | Eui64 | Naa | RelativeTargetPortIdentifier
| TargetPortGroup | LogicalUnitGroup | Md5LogicalUnitIdentifier
| ScsiNameString | ProtocolSpecificPortIdentifier | DT_Reserved.

Definition association_eqb (a b : Association) : bool :=
  match a, b with
  | AddressedLogicalUnit, AddressedLogicalUnit
  | TargetPort, TargetPort
  | ScsiTargetDevice, ScsiTargetDevice
  | A_Reserved, A_Reserved => true
  | _, _ => false
  end.

(** [to_protocol] (lines 355-375). *)
Definition to_protocol (ident : N) (assoc : Association) (piv : N)
  : ProtocolIdentifier :=
  if (piv =? 0)
     || negb (association_eqb assoc TargetPort
              || association_eqb assoc ScsiTargetDevice)
  then PI_Reserved
  else
    match ident with
    | 0 => Fcp | 1 => Spi | 2 => Ssa | 3 => Sbp | 4 => Srp | 5 => IScsi
    | 6 => Spl | 7 => Adt | 8 => Acs | 9 => Uas | 10 => Sop
    | _ => if (11 <=? ident) && (ident <=? 14) then PI_Reserved
           else Unspecified
    end.

(** [to_association] (lines 377-384). *)
Definition to_association (i : N) : Association :=
  match i with
  | 0 => AddressedLogicalUnit | 1 => TargetPort | 2 => ScsiTargetDevice
  | _ => A_Reserved
  end.

(** [to_designator_type] (lines 386-400). *)
Definition to_designator_type (i : N) : DesignatorType :=
  match i with
  | 0 => DT_VS | 1 => T10VendorId | 2 => Eui64 | 3 => Naa
  | 4 => RelativeTargetPortIdentifier | 5 => TargetPortGroup
  | 6 => LogicalUnitGroup | 7 => Md5LogicalUnitIdentifier
  | 8 => ScsiNameString | 9 => ProtocolSpecificPortIdentifier
  | _ => DT_Reserved
  end.

(** [to_qualifier] (lines 470-479). *)
Definition to_qualifier (i : N) : PeripheralQualifier :=
  match i with
  | 0 => PQ_Connected | 1 => PQ_NotConnected | 2 => PQ_Reserved
  | 3 => PQ_NotCapable
  | _ => if (4 <=? i) && (i <=? 7) then PQ_VS else PQ_Reserved
  end.

(** [to_device_type] (lines 481-502). *)
Definition to_device_type (i : N) : PeripheralDeviceType :=
  match i with
  | 0 => DirectAccess | 1 => SequentialAccess | 2 => Printer
  | 3 => Processor | 4 => WriteOnce | 5 => CdDvd | 6 => Obsolete
  | 7 => OpticalMemory | 8 => MediaChanger
  | 9 | 10 | 11 => Obsolete
  | 12 => StorageArrayController | 13 => EnclosureServices
  | 14 => SimplifiedDirectAccess | 15 => OpticalCardReader
  | 16 => PDT_Reserved | 17 => ObjectBasedStorage
  | 18 => AutomationDriveInterface
  | _ => PDT_Reserved
  end.

(** ** Rust slices, indexing and panics *)

Inductive PanicKind :=
| IndexOutOfBounds        (* buf[i] with i >= len *)
| SliceIndexOrder         (* buf[a..b] with a > b *)
| SliceEndOutOfRange      (* buf[a..b] with b > len *)
| UnwrapUtf8Error         (* from_utf8(..).unwrap() on invalid UTF-8 *)
| ToResultIncomplete.     (* nom's IResult::to_result on Incomplete *)

Inductive access (A : Type) :=
| Value (a : A)
| Panic (why : PanicKind).
Arguments Value {A} a.
Arguments Panic {A} why.

Definition bind_access {A B} (m : access A) (f : A -> access B) : access B :=
  match m with Value a => f a | Panic w => Panic w end.

Notation "x <- m ;; k" := (bind_access m (fun x => k))
  (at level 61, m at next level, right associativity).

(** [buf[i]] *)
Definition index (buf : list N) (i : nat) : access N :=
  match nth_error buf i with
  | Some b => Value b
  | None => Panic IndexOutOfBounds
  end.

(** [&buf[a..b]]: the order check comes first, as in [core::slice]. *)
Definition slice (buf : list N) (a b : nat) : access (list N) :=
  if Nat.ltb b a then Panic SliceIndexOrder
  else if Nat.ltb (length buf) b then Panic SliceEndOutOfRange
  else Value (firstn (b - a) (skipn a buf)).

(** ** UTF-8, as [core::str::from_utf8] and [String::from_utf8_lossy] see it

    Both walk the bytes one character at a time with the same checks
    ([utf8_char_width], then the admissible ranges of the second byte for
    3- and 4-byte sequences, then continuation bytes).  [next_chunk] is one
    such step: a valid character, or the maximal invalid prefix (the bytes
    accepted before the first failing check) that the lossy decoder replaces
    by one U+FFFD. *)

Definition utf8_char_width (b : N) : nat :=
  if b <? 0x80 then 1
  else if b <? 0xC2 then 0
  else if b <? 0xE0 then 2
  else if b <? 0xF0 then 3
  else if b <? 0xF5 then 4
  else 0.

Definition in_range (lo hi b : N) : bool := (lo <=? b) && (b <=? hi).

(** [(b as i8) < -64] *)
Definition is_cont (b : N) : bool := in_range 0x80 0xBF b.

Definition second_ok3 (first second : N) : bool :=
  (if first =? 0xE0 then in_range 0xA0 0xBF second else false)
  || (in_range 0xE1 0xEC first && in_range 0x80 0xBF second)
  || (if first =? 0xED then in_range 0x80 0x9F second else false)
  || (in_range 0xEE 0xEF first && in_range 0x80 0xBF second).

Definition second_ok4 (first second : N) : bool :=
  (if first =? 0xF0 then in_range 0x90 0xBF second else false)
  || (in_range 0xF1 0xF3 first && in_range 0x80 0xBF second)
  || (if first =? 0xF4 then in_range 0x80 0x8F second else false).

Inductive chunk :=
| ChValid (bytes : list N)
| ChInvalid (bytes : list N).

Definition chunk_bytes (c : chunk) : list N :=
  match c with ChValid bs | ChInvalid bs => bs end.

Definition next_chunk (l : list N) : option (chunk * list N) :=
  match l with
  | [] => None
  | b :: t =>
    if b <? 0x80 then Some (ChValid [b], t) else
    match utf8_char_width b with
    | 2%nat =>
      match t with
      | c :: t1 => if is_cont c then Some (ChValid [b; c], t1)
                   else Some (ChInvalid [b], t)
      | [] => Some (ChInvalid [b], t)
      end
    | 3%nat =>
      match t with
      | c :: t1 =>
        if second_ok3 b c then
          match t1 with
          | d :: t2 => if is_cont d then Some (ChValid [b; c; d], t2)
                       else Some (ChInvalid [b; c], t1)
          | [] => Some (ChInvalid [b; c], t1)
          end
        else Some (ChInvalid [b], t)
      | [] => Some (ChInvalid [b], t)
      end
    | 4%nat =>
      match t with
      | c :: t1 =>
        if second_ok4 b c then
          match t1 with
          | d :: t2 =>
            if is_cont d then
              match t2 with
              | e :: t3 => if is_cont e then Some (ChValid [b; c; d; e], t3)
                           else Some (ChInvalid [b; c; d], t2)
              | [] => Some (ChInvalid [b; c; d], t2)
              end
            else Some (ChInvalid [b; c], t1)
          | [] => Some (ChInvalid [b; c], t1)
          end
        else Some (ChInvalid [b], t)
      | [] => Some (ChInvalid [b], t)
      end
    | _ => Some (ChInvalid [b], t)
    end
  end.

(** The walk over the whole input; [fuel] is the input length, enough
    since every step consumes at least one byte. *)
Fixpoint utf8_valid_fuel (fuel : nat) (l : list N) : bool :=
  match fuel with
  | O => true
  | S f =>
    match next_chunk l with
    | None => true
    | Some (ChValid _, r) => utf8_valid_fuel f r
    | Some (ChInvalid _, _) => false
    end
  end.

Definition utf8_valid (l : list N) : bool := utf8_valid_fuel (length l) l.

(** U+FFFD, encoded *)
Definition replacement_char : list N := [0xEF; 0xBF; 0xBD].

Fixpoint lossy_fuel (fuel : nat) (l : list N) : list N :=
  match fuel with
  | O => []
  | S f =>
    match next_chunk l with
    | None => []
    | Some (ChValid bs, r) => bs ++ lossy_fuel f r
    | Some (ChInvalid _, r) => replacement_char ++ lossy_fuel f r
    end
  end.

(** [String::from_utf8_lossy(..).into_owned()] *)
Definition from_utf8_lossy (l : list N) : list N := lossy_fuel (length l) l.

(** [from_utf8(s).unwrap()]: a [&str] is its UTF-8 bytes. *)
Definition from_utf8_unwrap (l : list N) : access (list N) :=
  if utf8_valid l then Value l else Panic UnwrapUtf8Error.

(** ** Errors and the SG_IO transport *)

Inductive IoError :=
| IoOs (errno : N)                              (* from [open] *)
| IoOther (msg : String.string).                (* io::Error::new(Other, msg) *)

(** [Sg3Error] (lines 33-38); [nom::ErrorKind] restricted to the kinds the
    parsers below can raise. *)
Inductive ErrorKind := EK_Tag | EK_Complete | EK_Many0.

Inductive Sg3Error :=
| Nix (errno : N)
| Io (e : IoError)
| Nom (k : ErrorKind).

Inductive Sg3Result (A : Type) :=
| Ok (a : A)
| Err (e : Sg3Error).
Arguments Ok {A} a.
Arguments Err {A} e.

(** What one SG_IO exchange on the device path can do: [open] fails, the
    ioctl fails, or the device transfers some bytes into the data buffer. *)
Inductive sg_io_outcome :=
| OpenFailed (e : IoError)
| IoctlFailed (errno : N)
| Transferred (data : list N).

(** A device answers a CDB and a transfer length ([dxfer_len]). *)
Definition device := list N -> nat -> sg_io_outcome.

(** The driver writes the transferred bytes into the front of the caller's
    buffer, never past [dxfer_len] = the buffer's length. *)
Definition fill_buf (buf data : list N) : list N :=
  firstn (length buf) data ++ skipn (length data) buf.

(** ** Standard INQUIRY (lines 139-281) *)

Record StdInquiry := { si_buf : list N }.

(** [StdInquiry::new] *)
Definition std_inquiry_new : StdInquiry := {| si_buf := repeat 0 96 |}.

Definition response_data_format (s : StdInquiry) : access N :=
  b <- index (si_buf s) 3 ;; Value (N.land b 0x0f).

Definition hi_sup (s : StdInquiry) : access N :=
  b <- index (si_buf s) 3 ;; Value (N.shiftr (N.land b 0x10) 5).

Definition norm_aca (s : StdInquiry) : access N :=
  b <- index (si_buf s) 3 ;; Value (N.shiftr (N.land b 0x20) 5).

Definition wbus16 (s : StdInquiry) : access N :=
  b <- index (si_buf s) 7 ;; Value (N.shiftr (N.land b 0x20) 5).

Definition sync (s : StdInquiry) : access N :=
  b <- index (si_buf s) 7 ;; Value (N.shiftr (N.land b 0x10) 5).

Definition cmd_que (s : StdInquiry) : access N :=
  b <- index (si_buf s) 7 ;; Value (N.shiftr (N.land b 0x02) 1).

Definition vendor (s : StdInquiry) : access (list N) :=
  bs <- slice (si_buf s) 8 16 ;; from_utf8_unwrap bs.

Definition product_id (s : StdInquiry) : access (list N) :=
  bs <- slice (si_buf s) 16 32 ;; from_utf8_unwrap bs.

Definition product_revision (s : StdInquiry) : access (list N) :=
  bs <- slice (si_buf s) 32 36 ;; from_utf8_unwrap bs.

Definition unsupported_format : Sg3Error :=
  Io (IoOther "Unknown/unsupported response data format"%string).

(** [inquiry] (lines 140-173): CDB [0x12, 0, 0, 0, len as u8, 0]. *)
Definition inquiry (dev : device) : access (Sg3Result StdInquiry) :=
  let inq := std_inquiry_new in
  let cmd := [0x12; 0; 0; 0; N.of_nat (length (si_buf inq)) mod 256; 0] in
  match dev cmd (length (si_buf inq)) with
  | OpenFailed e => Value (Err (Io e))
  | IoctlFailed e => Value (Err (Nix e))
  | Transferred data =>
    let inq := {| si_buf := fill_buf (si_buf inq) data |} in
    f <- response_data_format inq ;;
    if negb (f =? 2) then Value (Err unsupported_format)
    else Value (Ok inq)
  end.

(** ** VPD pages (lines 283-353) *)

(** The CDB built in [inquiry_vpd] (lines 289-294):
    [BigEndian::write_u16(&mut cmd[3..5], buf.len() as u16)]. *)
Definition inquiry_vpd_cmd (vpd : N) (buf_len : nat) : list N :=
  let alloc := N.of_nat buf_len mod 65536 in
  [0x12; 1; vpd; N.shiftr alloc 8; N.land alloc 0xff; 0].

(** [inquiry_vpd]: on success, the caller's buffer as the driver left it. *)
Definition inquiry_vpd (dev : device) (vpd : N) (buf : list N)
  : Sg3Result (list N) :=
  match dev (inquiry_vpd_cmd vpd (length buf)) (length buf) with
  | OpenFailed e => Err (Io e)
  | IoctlFailed e => Err (Nix e)
  | Transferred data => Ok (fill_buf buf data)
  end.

Record InquiryVpd80 := { v80_buf : list N }.

Definition inquiry_vpd80_new : InquiryVpd80 := {| v80_buf := repeat 0 96 |}.

(** [BigEndian::read_u16] *)
Definition read_u16_be (bs : list N) : access N :=
  match bs with
  | hi :: lo :: _ => Value (hi * 256 + lo)
  | _ => Panic IndexOutOfBounds
  end.

(** [InquiryVpd80::serial_number] (lines 341-344). *)
Definition serial_number (v : InquiryVpd80) : access (list N) :=
  lbytes <- slice (v80_buf v) 2 4 ;;
  length <- read_u16_be lbytes ;;
  bs <- slice (v80_buf v) 4 (N.to_nat length + 3) ;;
  from_utf8_unwrap bs.

(** [inquiry_vpd_80] (lines 349-353). *)
Definition inquiry_vpd_80 (dev : device) : Sg3Result InquiryVpd80 :=
  match inquiry_vpd dev 0x80 (v80_buf inquiry_vpd80_new) with
  | Ok buf => Ok {| v80_buf := buf |}
  | Err e => Err e
  end.

(** ** VPD 0x83 parser: the nom 3 combinators it is built from

    [IResult]: [Done rest output], [Error kind] or [Incomplete].  The
    [Needed] size carried by nom's [Incomplete] is dropped: nothing in this
    code reads it ([complete!] and [to_result] only test for [Incomplete]).
    [dbg_dmp!] only prints on error and passes the result through. *)

Inductive IResult (A : Type) :=
| Done (rest : list N) (o : A)
| Error (e : ErrorKind)
| Incomplete.
Arguments Done {A} rest o.
Arguments Error {A} e.
Arguments Incomplete {A}.

Definition parser (A : Type) := list N -> IResult A.

(** Sequencing inside [do_parse!] *)
Definition seq {A B} (r : IResult A) (k : list N -> A -> IResult B)
  : IResult B :=
  match r with
  | Done i o => k i o
  | Error e => Error e
  | Incomplete => Incomplete
  end.

Definition be_u8 : parser N := fun i =>
  match i with
  | [] => Incomplete
  | b :: t => Done t b
  end.

Definition be_u16 : parser N := fun i =>
  match i with
  | hi :: lo :: t => Done t (hi * 256 + lo)
  | _ => Incomplete
  end.

(** [take!(n)] *)
Definition take (n : nat) : parser (list N) := fun i =>
  if Nat.ltb (length i) n then Incomplete
  else Done (skipn n i) (firstn n i).

(** [tag!(&[0x83u8][..])] *)
Definition tag_83 : parser (list N) := fun i =>
  match i with
  | [] => Incomplete
  | b :: t => if b =? 0x83 then Done t [b] else Error EK_Tag
  end.

(** [complete!] *)
Definition complete {A} (r : IResult A) : IResult A :=
  match r with
  | Incomplete => Error EK_Complete
  | r => r
  end.

(** [many0!]: stop on the empty input or on a sub-parser [Error]; an
    [Incomplete] propagates; a trip that consumes nothing is an error.
    [fuel] bounds the trips; [S (length input)] is never exhausted since
    each successful trip consumes input. *)
Fixpoint many0 {A} (p : parser A) (fuel : nat) (input : list N) (res : list A)
  : IResult (list A) :=
  match fuel with
  | O => Done input res
  | S f =>
    match input with
    | [] => Done input res
    | _ =>
      match p input with
      | Error _ => Done input res
      | Incomplete => Incomplete
      | Done i o =>
        if list_eq_dec N.eq_dec i input then Error EK_Many0
        else many0 p f i (res ++ [o])
      end
    end
  end.

(** [bits!(pair!(take_bits!(u8, 4), take_bits!(u8, 4)))]: high nibble
    first, as nom reads bits most significant first. *)
Definition dd_byte0 : parser (N * N) := fun i =>
  match i with
  | [] => Incomplete
  | b :: t => Done t (N.land (N.shiftr b 4) 0xf, N.land b 0xf)
  end.

(** [bits!(tuple!(take_bits!(u8,1), take_bits!(u8,1), take_bits!(u8,2),
    take_bits!(u8,4)))] *)
Definition dd_byte1 : parser (N * N * N * N) := fun i =>
  match i with
  | [] => Incomplete
  | b :: t =>
    Done t (N.land (N.shiftr b 7) 1, N.land (N.shiftr b 6) 1,
            N.land (N.shiftr b 4) 3, N.land b 0xf)
  end.

(** [bits!(pair!(take_bits!(u8, 3), take_bits!(u8, 5)))] *)
Definition periph : parser (N * N) := fun i =>
  match i with
  | [] => Incomplete
  | b :: t => Done t (N.land (N.shiftr b 5) 7, N.land b 0x1f)
  end.

(** ** Designators and descriptors (lines 402-459) *)

(** [slice_to_null]: up to the first NUL, or the entire slice. *)
Fixpoint slice_to_null (slc : list N) : list N :=
  match slc with
  | [] => []
  | c :: t => if c =? 0 then [] else c :: slice_to_null t
  end.

Module Designator.
Inductive t :=
| Binary (bytes : list N)
| String (text : list N).   (* a Rust [String]: its UTF-8 bytes *)
End Designator.

(** [to_designator] (lines 419-425). *)
Definition to_designator (code : N) (data : list N) : Designator.t :=
  if code <=? 1 then Designator.Binary data
  else if code <=? 3 then Designator.String (from_utf8_lossy (slice_to_null data))
  else Designator.Binary data.

Record DesignationDescriptor := {
  protocol : ProtocolIdentifier;
  association : Association;
  designator_type : DesignatorType;
  designator : Designator.t }.

(** [des_desc] (lines 443-457). *)
Definition des_desc : parser DesignationDescriptor := fun i =>
  seq (dd_byte0 i) (fun i byte0 =>
  seq (dd_byte1 i) (fun i byte1 =>
  seq (take 1 i) (fun i _ =>
  seq (be_u8 i) (fun i length =>
  seq (take (N.to_nat length) i) (fun i designator_bytes =>
  let '(b0_0, b0_1) := byte0 in
  let '(b1_0, _, b1_2, b1_3) := byte1 in
  Done i {| protocol := to_protocol b0_0 (to_association b1_2) b1_0;
            association := to_association b1_2;
            designator_type := to_designator_type b1_3;
            designator := to_designator b0_1 designator_bytes |}))))).

(** [des_descs] = [many0!(des_desc)] *)
Definition des_descs : parser (list DesignationDescriptor) := fun i =>
  many0 des_desc (S (length i)) i [].

(** [length_value!(be_u16, des_descs)] *)
Definition length_value_descs : parser (list DesignationDescriptor) := fun i =>
  seq (be_u16 i) (fun i1 n =>
  seq (take (N.to_nat n) i1) (fun i2 region =>
  match complete (des_descs region) with
  | Done _ o3 => Done i2 o3
  | Error e => Error e
  | Incomplete => Incomplete
  end)).

Record InquiryVpd83 := {
  qualifier : PeripheralQualifier;
  device_type : PeripheralDeviceType;
  descriptors : list DesignationDescriptor }.

(** [vpd83] (lines 504-513). *)
Definition vpd83 : parser InquiryVpd83 := fun i =>
  seq (periph i) (fun i per =>
  seq (tag_83 i) (fun i _ =>
  seq (length_value_descs i) (fun i descs =>
  Done i {| qualifier := to_qualifier (fst per);
            device_type := to_device_type (snd per);
            descriptors := descs |}))).

(** [IResult::to_result] followed by [try!]: [Incomplete] panics. *)
Definition to_result {A} (r : IResult A) : access (Sg3Result A) :=
  match r with
  | Done _ o => Value (Ok o)
  | Error e => Value (Err (Nom e))
  | Incomplete => Panic ToResultIncomplete
  end.

(** [inquiry_vpd_83] (lines 517-522): a 1024-byte buffer. *)
Definition inquiry_vpd_83 (dev : device) : access (Sg3Result InquiryVpd83) :=
  match inquiry_vpd dev 0x83 (repeat 0 1024) with
  | Err e => Value (Err e)
  | Ok buf => to_result (vpd83 buf)
  end.

(** ** The protocol table as the specification words it (section 4.1),
    to be compared with [to_protocol]: the first eleven codes name a
    protocol, 0xb to 0xe are reserved, anything else is unspecified. *)
Definition spec_protocol_code (code : N) : ProtocolIdentifier :=
  match nth_error [Fcp; Spi; Ssa; Sbp; Srp; IScsi; Spl; Adt; Acs; Uas; Sop]
                  (N.to_nat code) with
  | Some p => p
  | None => if code <=? 14 then PI_Reserved else Unspecified
  end.

(** ** The remaining accessors of [StdInquiry] (lines 194-268) *)

Definition si_peripheral_qualifier (s : StdInquiry) : access PeripheralQualifier :=
  b <- index (si_buf s) 0 ;; Value (to_qualifier (N.shiftr b 5)).

Definition si_peripheral_device_type (s : StdInquiry)
  : access PeripheralDeviceType :=
  b <- index (si_buf s) 0 ;; Value (to_device_type (N.land b 0x1f)).

Definition rmb (s : StdInquiry) : access N :=
  b <- index (si_buf s) 1 ;; Value (N.shiftr (N.land b 0x80) 7).

Definition lu_cong (s : StdInquiry) : access N :=
  b <- index (si_buf s) 1 ;; Value (N.shiftr (N.land b 0x40) 6).

Definition version (s : StdInquiry) : access N := index (si_buf s) 2.

Definition sccs (s : StdInquiry) : access N :=
  b <- index (si_buf s) 5 ;; Value (N.shiftr (N.land b 0x80) 7).

Definition acc (s : StdInquiry) : access N :=
  b <- index (si_buf s) 5 ;; Value (N.shiftr (N.land b 0x40) 6).

Definition tpgs (s : StdInquiry) : access N :=
  b <- index (si_buf s) 5 ;; Value (N.shiftr (N.land b 0x30) 4).

Definition third_party_copy (s : StdInquiry) : access N :=
  b <- index (si_buf s) 5 ;; Value (N.shiftr (N.land b 0x08) 3).

Definition protect (s : StdInquiry) : access N :=
  b <- index (si_buf s) 5 ;; Value (N.land b 0x01).

Definition enc_serv (s : StdInquiry) : access N :=
  b <- index (si_buf s) 6 ;; Value (N.shiftr (N.land b 0x40) 6).

Definition multi_p (s : StdInquiry) : access N :=
  b <- index (si_buf s) 6 ;; Value (N.shiftr (N.land b 0x10) 4).

Definition addr16 (s : StdInquiry) : access N :=
  b <- index (si_buf s) 6 ;; Value (N.land b 0x01).

(** ** The remaining accessors of [InquiryVpd80] (lines 333-339) *)

Definition v80_peripheral_qualifier (v : InquiryVpd80)
  : access PeripheralQualifier :=
  b <- index (v80_buf v) 0 ;; Value (to_qualifier (N.shiftr b 5)).

Definition v80_peripheral_device_type (v : InquiryVpd80)
  : access PeripheralDeviceType :=
  b <- index (v80_buf v) 0 ;; Value (to_device_type (N.land b 0x1f)).

(** ** Descriptor encoding, for stating what [des_descs] reads back *)

(** The record [des_desc] builds from byte 0, byte 1 and the payload. *)
Definition descriptor_of (b0 b1 : N) (payload : list N) : DesignationDescriptor :=
  {| protocol := to_protocol (N.land (N.shiftr b0 4) 0xf)
                             (to_association (N.land (N.shiftr b1 4) 3))
                             (N.land (N.shiftr b1 7) 1);
     association := to_association (N.land (N.shiftr b1 4) 3);
     designator_type := to_designator_type (N.land b1 0xf);
     designator := to_designator (N.land b0 0xf) payload |}.

(** A designation descriptor as bytes: byte 0, byte 1, the reserved
    byte 2 and the payload, whose length goes in byte 3. *)
Record raw_desc := { rd_b0 : N; rd_b1 : N; rd_b2 : N; rd_payload : list N }.

Definition encode_raw (r : raw_desc) : list N :=
  [rd_b0 r; rd_b1 r; rd_b2 r; N.of_nat (length (rd_payload r))] ++ rd_payload r.

Definition decode_raw (r : raw_desc) : DesignationDescriptor :=
  descriptor_of (rd_b0 r) (rd_b1 r) (rd_payload r).

(** The bit [k] of [b] as 0 or 1. *)
Definition bit (b : N) (k : N) : N := if N.testbit b k then 1 else 0.

(** ** Concrete buffers used below *)

(** A VPD 0x80 page declaring a 5-byte serial number "HELLO". *)
Definition vpd80_hello : InquiryVpd80 :=
  {| v80_buf := [0x00; 0x80; 0x00; 0x05; 72; 69; 76; 76; 79] ++ repeat 0 87 |}.

(** A VPD 0x80 page declaring 94 bytes of serial number: 4 + 94 > 96. *)
Definition vpd80_len94 : InquiryVpd80 :=
  {| v80_buf := [0x00; 0x80; 0x00; 94] ++ repeat 0 92 |}.

(** A standard INQUIRY response whose vendor field starts with 0xFF. *)
Definition std_bad_vendor : StdInquiry :=
  {| si_buf := [0; 0; 0; 2; 0; 0; 0; 0; 0xFF] ++ repeat 0x20 87 |}.

(** A 1024-byte VPD 0x83 response whose 11-byte descriptor region holds
    one whole descriptor (payload 0x41) and then a descriptor declaring 8
    payload bytes of which only 2 are in the region. *)
Definition vpd83_cut_short : list N :=
  [0x00; 0x83; 0x00; 11;
   0x00; 0x01; 0x00; 0x01; 0x41;
   0x00; 0x81; 0x00; 0x08; 0x01; 0x02] ++ repeat 0 1009.

(** The VPD 0x83 page of section 8 item 8 with region length [len], in
    the 1024-byte buffer of [inquiry_vpd_83] (zeros after the data). *)
Definition vpd83_example (len : N) : list N :=
  [0x00; 0x83; 0x00; len; 0x00; 0x81; 0x00; 0x02; 0x41; 0x42] ++ repeat 0 1014.

(** The one descriptor [0x00, 0x81, 0x00, 0x02, 0x41, 0x42] decodes to. *)
Definition example_descriptor : DesignationDescriptor :=
  {| protocol := PI_Reserved;
     association := AddressedLogicalUnit;
     designator_type := T10VendorId;
     designator := Designator.Binary [0x41; 0x42] |}.

(** A descriptor region cut into whole descriptors: each a 4-byte header
    whose byte 3 is the payload length, followed by that many bytes. *)
Inductive framed : list N -> Prop :=
| framed_nil : framed []
| framed_cons (b0 b1 b2 L : N) (payload more : list N) :
    length payload = N.to_nat L -> framed more ->
    framed ([b0; b1; b2; L] ++ payload ++ more).

(** * Properties *)

Lemma fill_buf_length (buf data : list N) :
  length (fill_buf buf data) = length buf.
Proof.
  unfold fill_buf. rewrite length_app, length_firstn, length_skipn. lia.
Qed.

Lemma index_in_range (buf : list N) (i : nat) :
  (i < length buf)%nat -> index buf i = Value (nth i buf 0).
Proof.
  intros H. unfold index. rewrite (nth_error_nth' buf 0 H). reflexivity.
Qed.

Lemma slice_in_range (buf : list N) (a b : nat) :
  (a <= b)%nat -> (b <= length buf)%nat ->
  slice buf a b = Value (firstn (b - a) (skipn a buf)).
Proof.
  intros Hab Hb. unfold slice.
  destruct (Nat.ltb_spec b a); [lia|].
  destruct (Nat.ltb_spec (length buf) b); [lia|]. reflexivity.
Qed.

(** Past the eleven named codes, [to_protocol]'s [match] falls through to
    its last arm. *)
Lemma to_protocol_match_default (code : N) (X : ProtocolIdentifier) :
  16 <= code ->
  match code with
  | 0 => Fcp | 1 => Spi | 2 => Ssa | 3 => Sbp | 4 => Srp | 5 => IScsi
  | 6 => Spl | 7 => Adt | 8 => Acs | 9 => Uas | 10 => Sop
  | _ => X
  end = X.
Proof.
  intros H. destruct code as [|p]; [lia|].
  do 4 (destruct p as [p|p|]; try (simpl in H; lia)); reflexivity.
Qed.

(** C5: the PIV/association gate forces [Reserved]; past the gate the raw
    code follows the table 0..0xa named, 0xb..0xe [Reserved], from 0xf on
    [Unspecified]. *)
Theorem to_protocol_gate_table (code : N) (assoc : Association) (piv : N) :
  ((piv = 0 \/ (assoc <> TargetPort /\ assoc <> ScsiTargetDevice)) ->
   to_protocol code assoc piv = PI_Reserved)
  /\
  ((piv <> 0 /\ (assoc = TargetPort \/ assoc = ScsiTargetDevice)) ->
   to_protocol code assoc piv = spec_protocol_code code).
Proof.
  split.
  - intros [Hp | [Ht Hs]]; unfold to_protocol.
    + subst piv. reflexivity.
    + destruct assoc; try congruence; rewrite orb_true_r; reflexivity.
  - intros [Hp Ha]. unfold to_protocol.
    replace (piv =? 0) with false by (symmetry; apply N.eqb_neq; exact Hp).
    replace (association_eqb assoc TargetPort
             || association_eqb assoc ScsiTargetDevice) with true
      by (destruct Ha; subst; reflexivity).
    simpl.
    destruct (N.lt_ge_cases code 16) as [Hlt | Hge].
    + assert (code = 0 \/ code = 1 \/ code = 2 \/ code = 3 \/ code = 4 \/
              code = 5 \/ code = 6 \/ code = 7 \/ code = 8 \/ code = 9 \/
              code = 10 \/ code = 11 \/ code = 12 \/ code = 13 \/
              code = 14 \/ code = 15) as Hc by lia.
      repeat destruct Hc as [Hc | Hc]; subst code; reflexivity.
    + rewrite to_protocol_match_default by exact Hge.
      unfold spec_protocol_code.
      replace (nth_error _ (N.to_nat code)) with (@None ProtocolIdentifier)
        by (symmetry; apply nth_error_None; simpl; lia).
      replace (11 <=? code) with true by (symmetry; apply N.leb_le; lia).
      replace (code <=? 14) with false by (symmetry; apply N.leb_gt; lia).
      reflexivity.
Qed.

Lemma to_protocol_gate_table_witness :
  to_protocol 10 ScsiTargetDevice 1 = Sop /\
  to_protocol 3 AddressedLogicalUnit 1 = PI_Reserved.
Proof.
  split.
  - rewrite (proj2 (to_protocol_gate_table 10 ScsiTargetDevice 1))
      by (split; [discriminate | right; reflexivity]).
    reflexivity.
  - apply (proj1 (to_protocol_gate_table 3 AddressedLogicalUnit 1)).
    right; split; discriminate.
Defined.

(** C9: the VPD CDB is [0x12, 1, page, len hi, len lo, 0]; for page 0x83
    and the 1024-byte buffer of [inquiry_vpd_83] it is
    [0x12, 1, 0x83, 0x04, 0x00, 0]. *)
Theorem inquiry_vpd_cmd_83_1024 :
  inquiry_vpd_cmd 0x83 (length (repeat 0 1024)) = [0x12; 1; 0x83; 0x04; 0x00; 0]
  /\
  (forall (vpd : N) (len : nat),
      inquiry_vpd_cmd vpd len =
      [0x12; 1; vpd; (N.of_nat len mod 65536) / 256; N.of_nat len mod 256; 0]).
Proof.
  split; [reflexivity|].
  intros vpd len. unfold inquiry_vpd_cmd.
  rewrite N.shiftr_div_pow2.
  replace (N.land (N.of_nat len mod 65536) 0xff)
    with (N.of_nat len mod 65536 mod 2 ^ 8)
    by (symmetry; apply (N.land_ones _ 8)).
  set (x := N.of_nat len).
  replace (65536 : N) with (2 ^ 8 * 2 ^ 8) by reflexivity.
  rewrite N.Div0.mod_mul_r.
  rewrite (N.mul_comm (2 ^ 8) ((x / 2 ^ 8) mod 2 ^ 8)).
  rewrite N.Div0.mod_add, N.Div0.mod_mod. reflexivity.
Qed.

(** C10: on a 96-byte buffer [hi_sup] and [sync] are always 0: bit 4 is
    masked and then shifted out by [>> 5]. *)
Theorem hi_sup_sync_always_zero (s : StdInquiry) :
  length (si_buf s) = 96%nat -> hi_sup s = Value 0 /\ sync s = Value 0.
Proof.
  intros Hlen.
  assert (Hz : forall b : N, N.shiftr (N.land b 0x10) 5 = 0).
  { intros b. rewrite N.shiftr_div_pow2. apply N.div_small.
    eapply N.le_lt_trans; [apply N.land_le_r | reflexivity]. }
  unfold hi_sup, sync.
  rewrite !index_in_range by lia. cbn [bind_access]. rewrite !Hz. split; reflexivity.
Qed.

Lemma hi_sup_sync_always_zero_witness :
  length (si_buf std_bad_vendor) = 96%nat /\
  hi_sup std_bad_vendor = Value 0 /\ sync std_bad_vendor = Value 0.
Proof.
  split; [reflexivity|].
  apply hi_sup_sync_always_zero. reflexivity.
Defined.

(** With a declared length [L] between 1 and 93, [serial_number] returns
    the [L - 1] bytes [buf[4 .. L + 3]]. *)
Lemma serial_number_slice (v : InquiryVpd80) (b0 b1 b2 b3 : N) (rest : list N) :
  v80_buf v = b0 :: b1 :: b2 :: b3 :: rest -> length rest = 92%nat ->
  1 <= b2 * 256 + b3 <= 93 ->
  serial_number v =
  from_utf8_unwrap (firstn (N.to_nat (b2 * 256 + b3) - 1) rest).
Proof.
  intros Hb Hr HL. unfold serial_number. rewrite Hb. cbn [bind_access].
  rewrite slice_in_range by (simpl; lia). simpl bind_access.
  rewrite slice_in_range by (simpl; lia). simpl bind_access.
  f_equal. replace (N.to_nat (b2 * 256 + b3) + 3 - 4)%nat
    with (N.to_nat (b2 * 256 + b3) - 1)%nat by lia.
  reflexivity.
Qed.

(** C2 (code): on the buffer [.., .., 0x00, 0x05, 'H','E','L','L','O'],
    [serial_number] returns "HELL": it slices [buf[4 .. length + 3]]. *)
Theorem serial_number_hello_drops_last :
  firstn 5 (skipn 4 (v80_buf vpd80_hello)) = [72; 69; 76; 76; 79] /\
  serial_number vpd80_hello = Value [72; 69; 76; 76].
Proof.
  split; [reflexivity|].
  rewrite (serial_number_slice vpd80_hello 0 0x80 0 5
             ([72; 69; 76; 76; 79] ++ repeat 0 87))
    by (reflexivity || simpl; lia).
  reflexivity.
Qed.

(** C3, as stated, fails: the declared length 94 breaks
    [length + 4 <= 96], and the accessor panics on the slice instead of
    returning an error. *)
Lemma serial_number_len94_panics :
  (4 + 94 > length (v80_buf vpd80_len94))%nat /\
  serial_number vpd80_len94 = Panic SliceEndOutOfRange.
Proof. split; [simpl; lia | vm_compute; reflexivity]. Qed.

(** C3 (amended): [serial_number] has no bound check and no error result:
    once the declared length reaches past the end of the 96-byte buffer
    (length >= 94), slicing panics. *)
Theorem serial_number_past_end_panics (v : InquiryVpd80) :
  length (v80_buf v) = 96%nat ->
  94 <= nth 2 (v80_buf v) 0 * 256 + nth 3 (v80_buf v) 0 ->
  serial_number v = Panic SliceEndOutOfRange.
Proof.
  intros Hlen HL. unfold serial_number.
  destruct (v80_buf v) as [|b0 [|b1 [|b2 [|b3 rest]]]];
    simpl in Hlen; try discriminate.
  simpl in HL. cbn [bind_access].
  rewrite slice_in_range by (simpl; lia). simpl bind_access.
  unfold slice.
  destruct (Nat.ltb_spec (N.to_nat (b2 * 256 + b3) + 3) 4); [lia|].
  destruct (Nat.ltb_spec (length (b0 :: b1 :: b2 :: b3 :: rest))
                         (N.to_nat (b2 * 256 + b3) + 3)).
  - reflexivity.
  - simpl in *. lia.
Qed.

Lemma serial_number_past_end_panics_witness :
  length (v80_buf vpd80_len94) = 96%nat /\
  94 <= nth 2 (v80_buf vpd80_len94) 0 * 256 + nth 3 (v80_buf vpd80_len94) 0 /\
  serial_number vpd80_len94 = Panic SliceEndOutOfRange.
Proof.
  split; [reflexivity|]. split; [simpl; lia|].
  apply serial_number_past_end_panics; [reflexivity | simpl; lia].
Defined.

(** C6, as stated, fails: an invalid UTF-8 byte in the vendor field makes
    [vendor] panic in [unwrap]; no decode error is returned. *)
Lemma vendor_invalid_utf8_panics :
  utf8_valid (firstn 8 (skipn 8 (si_buf std_bad_vendor))) = false /\
  vendor std_bad_vendor = Panic UnwrapUtf8Error.
Proof. split; vm_compute; reflexivity. Qed.

(** C6 (amended): on the 96-byte buffer, [vendor], [product_id] and
    [product_revision] return bytes 8-15, 16-31 and 32-35 unchanged when
    they are valid UTF-8, and panic ([from_utf8(..).unwrap()]) otherwise. *)
Theorem text_accessors_valid_or_panic (s : StdInquiry) :
  length (si_buf s) = 96%nat ->
  let field a n := firstn n (skipn a (si_buf s)) in
  vendor s = (if utf8_valid (field 8%nat 8%nat) then Value (field 8%nat 8%nat)
              else Panic UnwrapUtf8Error) /\
  product_id s = (if utf8_valid (field 16%nat 16%nat)
                  then Value (field 16%nat 16%nat)
                  else Panic UnwrapUtf8Error) /\
  product_revision s = (if utf8_valid (field 32%nat 4%nat)
                        then Value (field 32%nat 4%nat)
                        else Panic UnwrapUtf8Error).
Proof.
  intros Hlen field. unfold vendor, product_id, product_revision.
  rewrite !slice_in_range by lia. cbn [bind_access].
  repeat split; reflexivity.
Qed.

Lemma text_accessors_valid_or_panic_witness :
  length (si_buf std_bad_vendor) = 96%nat /\
  vendor std_bad_vendor = Panic UnwrapUtf8Error /\
  product_id std_bad_vendor = Value (repeat 0x20 16).
Proof.
  split; [reflexivity|].
  destruct (text_accessors_valid_or_panic std_bad_vendor eq_refl)
    as [Hv [Hp _]].
  split; [rewrite Hv | rewrite Hp]; vm_compute; reflexivity.
Defined.

(** C7: once the SG_IO exchange has transferred its data, [inquiry] fails
    with the unsupported-format error exactly when the low nibble of byte 3
    is not 2, and otherwise returns the filled buffer. *)
Theorem inquiry_unsupported_format_iff (dev : device) (data : list N) :
  dev [0x12; 0; 0; 0; 96; 0] 96%nat = Transferred data ->
  let buf := fill_buf (repeat 0 96) data in
  (inquiry dev = Value (Err unsupported_format) <-> N.land (nth 3 buf 0) 0x0f <> 2)
  /\
  (N.land (nth 3 buf 0) 0x0f = 2 -> inquiry dev = Value (Ok {| si_buf := buf |})).
Proof.
  intros Hdev buf.
  assert (Hinq : inquiry dev =
                 if negb (N.land (nth 3 buf 0) 0x0f =? 2)
                 then Value (Err unsupported_format)
                 else Value (Ok {| si_buf := buf |})).
  { unfold inquiry. cbn [si_buf std_inquiry_new].
    change (length (repeat 0 96)) with 96%nat.
    change (N.of_nat 96 mod 256) with 96. rewrite Hdev.
    unfold response_data_format. cbn [si_buf].
    rewrite index_in_range
      by (unfold buf; rewrite fill_buf_length, repeat_length; lia).
    reflexivity. }
  rewrite Hinq. split.
  - destruct (N.eqb_spec (N.land (nth 3 buf 0) 0x0f) 2); simpl.
    + split; [discriminate | contradiction].
    + tauto.
  - intros H. rewrite H. reflexivity.
Qed.

Lemma inquiry_unsupported_format_iff_witness :
  inquiry (fun _ _ => Transferred [0; 0; 5; 3]) = Value (Err unsupported_format).
Proof.
  apply (proj1 (inquiry_unsupported_format_iff
                  (fun _ _ => Transferred [0; 0; 5; 3]) [0; 0; 5; 3]
                  eq_refl)).
  vm_compute. discriminate.
Defined.

(** ** The descriptor loop *)

Lemma des_desc_whole (b0 b1 b2 L : N) (payload more : list N) :
  length payload = N.to_nat L ->
  exists d, des_desc ([b0; b1; b2; L] ++ payload ++ more) = Done more d.
Proof.
  intros Hp. unfold des_desc. cbn [seq dd_byte0 dd_byte1 app].
  unfold take at 1. cbn [length Nat.ltb Nat.leb skipn firstn seq be_u8].
  unfold take. rewrite length_app, Hp.
  destruct (Nat.ltb_spec (N.to_nat L + length more) (N.to_nat L)); [lia|].
  rewrite <- Hp, skipn_app, firstn_app, skipn_all, Nat.sub_diag,
    firstn_all, firstn_O, app_nil_r.
  simpl. eexists. reflexivity.
Qed.

Lemma des_desc_short_payload (b0 b1 b2 L : N) (rest : list N) :
  (length rest < N.to_nat L)%nat ->
  des_desc ([b0; b1; b2; L] ++ rest) = Incomplete.
Proof.
  intros Hr. unfold des_desc. cbn [seq dd_byte0 dd_byte1 app].
  unfold take at 1. cbn [length Nat.ltb Nat.leb skipn firstn seq be_u8].
  unfold take.
  destruct (Nat.ltb_spec (length rest) (N.to_nat L)); [reflexivity | lia].
Qed.

(** [many0!(des_desc)] runs through whole descriptors and then reports
    [Incomplete] on a descriptor whose payload is cut short. *)
Lemma many0_des_desc_truncated (pre : list N) (b0 b1 b2 L : N) (rest : list N) :
  framed pre -> (length rest < N.to_nat L)%nat ->
  forall (fuel : nat) (acc : list DesignationDescriptor),
  (length pre < fuel)%nat ->
  many0 des_desc fuel (pre ++ [b0; b1; b2; L] ++ rest) acc = Incomplete.
Proof.
  intros Hpre Hr. induction Hpre as [|c0 c1 c2 M payload more Hp Hmore IH];
    intros fuel acc Hfuel.
  - destruct fuel as [|f]; [simpl in Hfuel; lia|].
    pose proof (des_desc_short_payload b0 b1 b2 L rest Hr) as Hs.
    cbn [app] in Hs |- *. cbn [many0]. rewrite Hs. reflexivity.
  - destruct fuel as [|f]; [simpl in Hfuel; lia|].
    rewrite <- !app_assoc.
    destruct (des_desc_whole c0 c1 c2 M payload
                (more ++ [b0; b1; b2; L] ++ rest) Hp) as [d Hd].
    cbn [many0 app]. cbn [app] in Hd. rewrite Hd.
    destruct (list_eq_dec N.eq_dec _ _) as [E | _].
    + apply (f_equal (@length N)) in E. simpl in E.
      rewrite !length_app in E. lia.
    + apply IH. simpl in Hfuel. rewrite !length_app in Hfuel. lia.
Qed.

(** The header of the page, then [length_value!] on an in-bounds region. *)
Lemma vpd83_header (q hi lo : N) (tail : list N) :
  (N.to_nat (hi * 256 + lo) <= length tail)%nat ->
  vpd83 ([q; 0x83; hi; lo] ++ tail) =
  match complete (des_descs (firstn (N.to_nat (hi * 256 + lo)) tail)) with
  | Done _ ds =>
    Done (skipn (N.to_nat (hi * 256 + lo)) tail)
         {| qualifier := to_qualifier (N.land (N.shiftr q 5) 7);
            device_type := to_device_type (N.land q 0x1f);
            descriptors := ds |}
  | Error e => Error e
  | Incomplete => Incomplete
  end.
Proof.
  intros Hn. unfold vpd83, length_value_descs.
  cbn [seq periph tag_83 app be_u16 N.eqb Pos.eqb].
  unfold take.
  destruct (Nat.ltb_spec (length tail) (N.to_nat (hi * 256 + lo))); [lia|].
  cbn [seq]. destruct (complete _); reflexivity.
Qed.

(** C1: when the header and the declared region are in the buffer but a
    descriptor of the region declares more payload bytes than the region
    has left, the whole parse is one error, nom's [Complete] (the parser's
    "input ended early" error), which [inquiry_vpd_83] returns as
    [Sg3Error::Nom]; no descriptor list is returned. *)
Theorem vpd83_truncated_descriptor_fails
    (q hi lo b0 b1 b2 L : N) (tail pre rest : list N) :
  (N.to_nat (hi * 256 + lo) <= length tail)%nat ->
  firstn (N.to_nat (hi * 256 + lo)) tail = pre ++ [b0; b1; b2; L] ++ rest ->
  framed pre ->
  (length rest < N.to_nat L)%nat ->
  vpd83 ([q; 0x83; hi; lo] ++ tail) = Error EK_Complete /\
  (forall (dev : device) (data : list N),
     dev (inquiry_vpd_cmd 0x83 1024) 1024%nat = Transferred data ->
     fill_buf (repeat 0 1024) data = [q; 0x83; hi; lo] ++ tail ->
     inquiry_vpd_83 dev = Value (Err (Nom EK_Complete))).
Proof.
  intros Hn Hregion Hpre Hr.
  assert (Hv : vpd83 ([q; 0x83; hi; lo] ++ tail) = Error EK_Complete).
  { rewrite vpd83_header by exact Hn. rewrite Hregion.
    unfold des_descs.
    rewrite (many0_des_desc_truncated pre b0 b1 b2 L rest Hpre Hr)
      by (rewrite !length_app; lia).
    reflexivity. }
  split; [exact Hv|].
  intros dev data Hdev Hfill. unfold inquiry_vpd_83, inquiry_vpd.
  change (length (repeat 0 1024)) with 1024%nat.
  rewrite Hdev, Hfill, Hv. reflexivity.
Qed.

Lemma vpd83_truncated_descriptor_fails_witness :
  vpd83 vpd83_cut_short = Error EK_Complete /\
  inquiry_vpd_83 (fun _ _ => Transferred vpd83_cut_short)
  = Value (Err (Nom EK_Complete)).
Proof.
  destruct (vpd83_truncated_descriptor_fails 0 0 11 0 0x81 0 8
              ([0x00; 0x01; 0x00; 0x01; 0x41; 0x00; 0x81; 0x00; 0x08; 0x01; 0x02]
               ++ repeat 0 1009)
              [0x00; 0x01; 0x00; 0x01; 0x41] [0x01; 0x02])
    as [Hv Hi].
  - apply Nat.leb_le. vm_compute. reflexivity.
  - vm_compute. reflexivity.
  - exact (framed_cons 0 1 0 1 [0x41] [] eq_refl framed_nil).
  - simpl. lia.
  - split; [exact Hv|].
    apply (Hi _ vpd83_cut_short); vm_compute; reflexivity.
Defined.

(** C4, as stated, fails: with region length 8 the region is the 6-byte
    descriptor and 2 more bytes, too short for a descriptor header, so the
    parse of the 1024-byte buffer is an error. *)
Lemma vpd83_example_len8_fails :
  vpd83 (vpd83_example 0x08) = Error EK_Complete /\
  inquiry_vpd_83 (fun _ _ => Transferred (vpd83_example 0x08))
  = Value (Err (Nom EK_Complete)).
Proof. split; vm_compute; reflexivity. Qed.

(** C4 (amended): after the header [q, 0x83, 0x00, 0x08] the descriptor
    [0x00, 0x81, 0x00, 0x02, 0x41, 0x42] leaves 2 bytes of the region, and
    the parse fails whatever they are; 0x81 reads PIV = 1 and association
    bits 00; with region length 0x06 the parse yields exactly one
    descriptor: association AddressedLogicalUnit, protocol Reserved,
    designator type T10VendorId, payload Binary [0x41, 0x42]. *)
Theorem vpd83_example_descriptor (q : N) (tail : list N) :
  (2 <= length tail)%nat ->
  vpd83 ([q; 0x83; 0x00; 0x08; 0x00; 0x81; 0x00; 0x02; 0x41; 0x42] ++ tail)
  = Error EK_Complete
  /\ dd_byte1 [0x81] = Done [] (1, 0, 0, 1)
  /\ vpd83 ([q; 0x83; 0x00; 0x06; 0x00; 0x81; 0x00; 0x02; 0x41; 0x42] ++ tail)
     = Done tail {| qualifier := to_qualifier (N.land (N.shiftr q 5) 7);
                    device_type := to_device_type (N.land q 0x1f);
                    descriptors := [example_descriptor] |}.
Proof.
  intros Ht. split; [|split; [reflexivity|]].
  - change ([q; 0x83; 0x00; 0x08; 0x00; 0x81; 0x00; 0x02; 0x41; 0x42] ++ tail)
      with ([q; 0x83; 0x00; 0x08] ++ ([0x00; 0x81; 0x00; 0x02; 0x41; 0x42] ++ tail)).
    rewrite vpd83_header by (rewrite length_app; simpl; lia).
    destruct tail as [|t0 [|t1 tl]]; simpl in Ht; try lia.
    change (N.to_nat (0 * 256 + 8)) with 8%nat.
    cbn [firstn Datatypes.app]. unfold des_descs. cbn [many0].
    destruct (des_desc_whole 0 0x81 0 2 [0x41; 0x42] [t0; t1] eq_refl)
      as [d Hd].
    cbn [Datatypes.app] in Hd. rewrite Hd.
    destruct (list_eq_dec N.eq_dec _ _) as [E | _].
    + apply (f_equal (@length N)) in E. discriminate E.
    + assert (Hi : des_desc [t0; t1] = Incomplete) by reflexivity.
      cbn [many0 length]. rewrite Hi. reflexivity.
  - change ([q; 0x83; 0x00; 0x06; 0x00; 0x81; 0x00; 0x02; 0x41; 0x42] ++ tail)
      with ([q; 0x83; 0x00; 0x06] ++ ([0x00; 0x81; 0x00; 0x02; 0x41; 0x42] ++ tail)).
    rewrite vpd83_header by (rewrite length_app; simpl; lia).
    change (N.to_nat (0 * 256 + 6)) with 6%nat.
    cbn [firstn skipn]. reflexivity.
Qed.

Lemma vpd83_example_descriptor_witness :
  vpd83 (vpd83_example 0x06)
  = Done (repeat 0 1014)
         {| qualifier := PQ_Connected; device_type := DirectAccess;
            descriptors := [example_descriptor] |}.
Proof.
  apply (proj2 (proj2 (vpd83_example_descriptor 0 (repeat 0 1014) ltac:(simpl; lia)))).
Defined.

(** ** UTF-8 walk: one step at a time *)

(** Case analysis over every test [next_chunk] makes. *)
Ltac split_chunk_tests H :=
  repeat match type of H with
  | context [if ?c then _ else _] =>
    let E := fresh "E" in destruct c eqn:E
  | context [match ?x with [] => _ | _ :: _ => _ end] => destruct x
  | context [match ?x with O => _ | S _ => _ end] =>
    let E := fresh "W" in destruct x eqn:E
  end.

Lemma next_chunk_split (l r : list N) (c : chunk) :
  next_chunk l = Some (c, r) -> l = chunk_bytes c ++ r /\ chunk_bytes c <> [].
Proof.
  intros H. destruct l as [|b t]; [discriminate|].
  cbn [next_chunk] in H. split_chunk_tests H;
    injection H as <- <-; split; (reflexivity || discriminate).
Qed.

Lemma next_chunk_valid_prefix (l r r' bs : list N) :
  next_chunk l = Some (ChValid bs, r) ->
  next_chunk (bs ++ r') = Some (ChValid bs, r').
Proof.
  intros H. destruct l as [|b t]; [discriminate|].
  cbn [next_chunk] in H. split_chunk_tests H;
    try discriminate; injection H as <- <-; cbn [next_chunk Datatypes.app];
    repeat match goal with
           | E : ?c = _ |- context [?c] => rewrite E
           end;
    reflexivity.
Qed.

Lemma next_chunk_shorter (l r : list N) (c : chunk) :
  next_chunk l = Some (c, r) -> (length r < length l)%nat.
Proof.
  intros H. destruct (next_chunk_split l r c H) as [-> Hne].
  rewrite length_app. destruct (chunk_bytes c); [contradiction | simpl; lia].
Qed.

Lemma utf8_valid_fuel_irrelevant (f1 f2 : nat) (l : list N) :
  (length l <= f1)%nat -> (length l <= f2)%nat ->
  utf8_valid_fuel f1 l = utf8_valid_fuel f2 l.
Proof.
  revert f2 l. induction f1 as [|f1 IH]; intros f2 l H1 H2.
  - destruct l; [destruct f2; reflexivity | simpl in H1; lia].
  - destruct l as [|b t]; [destruct f2; reflexivity|].
    destruct f2 as [|f2]; [simpl in H2; lia|].
    cbn [utf8_valid_fuel].
    destruct (next_chunk (b :: t)) as [[[bs|bs] r]|] eqn:Hc; try reflexivity.
    pose proof (next_chunk_shorter _ _ _ Hc) as Hs.
    apply IH; simpl in *; lia.
Qed.

Lemma utf8_valid_fuel_enough (f : nat) (l : list N) :
  (length l <= f)%nat -> utf8_valid_fuel f l = utf8_valid l.
Proof. intros H. apply utf8_valid_fuel_irrelevant; lia. Qed.

Lemma utf8_valid_step (l : list N) :
  utf8_valid l =
  match next_chunk l with
  | None => true
  | Some (ChValid _, r) => utf8_valid r
  | Some (ChInvalid _, _) => false
  end.
Proof.
  destruct (next_chunk l) as [[[bs|bs] r]|] eqn:Hc.
  - pose proof (next_chunk_shorter _ _ _ Hc) as Hs.
    unfold utf8_valid at 1. destruct (length l) as [|n] eqn:Hn; [lia|].
    cbn [utf8_valid_fuel]. rewrite Hc. apply utf8_valid_fuel_enough. lia.
  - pose proof (next_chunk_shorter _ _ _ Hc) as Hs.
    unfold utf8_valid. destruct (length l) as [|n]; [lia|].
    cbn [utf8_valid_fuel]. rewrite Hc. reflexivity.
  - destruct l as [|b t]; [reflexivity|].
    cbn [next_chunk] in Hc. split_chunk_tests Hc; discriminate.
Qed.

Lemma lossy_fuel_irrelevant (f1 f2 : nat) (l : list N) :
  (length l <= f1)%nat -> (length l <= f2)%nat ->
  lossy_fuel f1 l = lossy_fuel f2 l.
Proof.
  revert f2 l. induction f1 as [|f1 IH]; intros f2 l H1 H2.
  - destruct l; [destruct f2; reflexivity | simpl in H1; lia].
  - destruct l as [|b t]; [destruct f2; reflexivity|].
    destruct f2 as [|f2]; [simpl in H2; lia|].
    cbn [lossy_fuel].
    destruct (next_chunk (b :: t)) as [[c r]|] eqn:Hc; [|reflexivity].
    pose proof (next_chunk_shorter _ _ _ Hc) as Hs.
    destruct c; f_equal; apply IH; simpl in *; lia.
Qed.

Lemma lossy_fuel_enough (f : nat) (l : list N) :
  (length l <= f)%nat -> lossy_fuel f l = from_utf8_lossy l.
Proof. intros H. apply lossy_fuel_irrelevant; lia. Qed.

Lemma from_utf8_lossy_step (l : list N) :
  from_utf8_lossy l =
  match next_chunk l with
  | None => []
  | Some (ChValid bs, r) => bs ++ from_utf8_lossy r
  | Some (ChInvalid _, r) => replacement_char ++ from_utf8_lossy r
  end.
Proof.
  destruct (next_chunk l) as [[c r]|] eqn:Hc.
  - pose proof (next_chunk_shorter _ _ _ Hc) as Hs.
    unfold from_utf8_lossy at 1. destruct (length l) as [|n] eqn:Hn; [lia|].
    cbn [lossy_fuel]. rewrite Hc.
    destruct c; f_equal; apply lossy_fuel_enough; lia.
  - destruct l as [|b t]; [reflexivity|].
    cbn [next_chunk] in Hc. split_chunk_tests Hc; discriminate.
Qed.

Lemma replacement_char_chunk (r : list N) :
  next_chunk (replacement_char ++ r) = Some (ChValid replacement_char, r).
Proof. reflexivity. Qed.

Lemma utf8_valid_after_char (bs r : list N) :
  next_chunk (bs ++ r) = Some (ChValid bs, r) ->
  utf8_valid (bs ++ r) = utf8_valid r.
Proof. intros H. rewrite utf8_valid_step, H. reflexivity. Qed.

(** The lossy decoder's output is always valid UTF-8. *)
Lemma from_utf8_lossy_valid (l : list N) : utf8_valid (from_utf8_lossy l) = true.
Proof.
  remember (length l) as n eqn:Hn. assert (Hle : (length l <= n)%nat) by lia.
  clear Hn. revert l Hle. induction n as [|n IH]; intros l Hle.
  - destruct l; [reflexivity | simpl in Hle; lia].
  - rewrite from_utf8_lossy_step.
    destruct (next_chunk l) as [[[bs|bs] r]|] eqn:Hc; [| |reflexivity];
      pose proof (next_chunk_shorter _ _ _ Hc) as Hs.
    + rewrite utf8_valid_after_char
        by exact (next_chunk_valid_prefix _ _ _ _ Hc).
      apply IH. lia.
    + rewrite utf8_valid_after_char by apply replacement_char_chunk.
      apply IH. lia.
Qed.

(** On valid UTF-8 the lossy decoder changes nothing. *)
Lemma from_utf8_lossy_valid_id (l : list N) :
  utf8_valid l = true -> from_utf8_lossy l = l.
Proof.
  remember (length l) as n eqn:Hn. assert (Hle : (length l <= n)%nat) by lia.
  clear Hn. revert l Hle. induction n as [|n IH]; intros l Hle Hv.
  - destruct l; [reflexivity | simpl in Hle; lia].
  - rewrite utf8_valid_step in Hv. rewrite from_utf8_lossy_step.
    destruct (next_chunk l) as [[[bs|bs] r]|] eqn:Hc.
    + pose proof (next_chunk_shorter _ _ _ Hc) as Hs.
      destruct (next_chunk_split _ _ _ Hc) as [Hl _]. simpl in Hl.
      rewrite IH by (exact Hv || lia). symmetry. exact Hl.
    + discriminate.
    + destruct l as [|b t]; [reflexivity|].
      cbn [next_chunk] in Hc. split_chunk_tests Hc; discriminate.
Qed.

(** [slice_to_null] is the part before the first NUL, or everything. *)
Lemma slice_to_null_spec (data : list N) :
  exists rest, data = slice_to_null data ++ rest /\
               ~ In 0 (slice_to_null data) /\
               (rest = [] \/ exists t, rest = 0 :: t).
Proof.
  induction data as [|c t IH].
  - exists []. simpl. tauto.
  - cbn [slice_to_null]. destruct (N.eqb_spec c 0) as [-> | Hc].
    + exists (0 :: t). simpl. split; [reflexivity|]. split; [tauto|].
      right. eauto.
    + destruct IH as [rest [Ht [Hn Hr]]]. exists rest.
      split; [simpl; f_equal; exact Ht|]. split; [|exact Hr].
      simpl. intros [H | H]; [congruence | contradiction].
Qed.

(** C8: codes 2 and 3 give a [String]: the bytes up to the first NUL,
    lossily decoded (each invalid sequence becomes U+FFFD, valid text is
    kept, the result is always valid UTF-8, so the decoding cannot fail);
    every other code gives a [Binary] holding the bytes themselves. *)
Theorem to_designator_text_or_binary (code : N) (data : list N) :
  ((code = 2 \/ code = 3) ->
   to_designator code data
   = Designator.String (from_utf8_lossy (slice_to_null data))
   /\ (exists rest, data = slice_to_null data ++ rest /\
                    ~ In 0 (slice_to_null data) /\
                    (rest = [] \/ exists t, rest = 0 :: t))
   /\ utf8_valid (from_utf8_lossy (slice_to_null data)) = true
   /\ (utf8_valid (slice_to_null data) = true ->
       from_utf8_lossy (slice_to_null data) = slice_to_null data)
   /\ (forall l bad r, next_chunk l = Some (ChInvalid bad, r) ->
       from_utf8_lossy l = replacement_char ++ from_utf8_lossy r))
  /\
  (code <> 2 -> code <> 3 -> to_designator code data = Designator.Binary data).
Proof.
  split.
  - intros Hc. split.
    + unfold to_designator. destruct Hc as [-> | ->]; reflexivity.
    + split; [apply slice_to_null_spec|].
      split; [apply from_utf8_lossy_valid|].
      split; [apply from_utf8_lossy_valid_id|].
      intros l bad r H. rewrite from_utf8_lossy_step, H. reflexivity.
  - intros H2 H3. unfold to_designator.
    destruct (N.leb_spec code 1); [reflexivity|].
    destruct (N.leb_spec code 3); [lia | reflexivity].
Qed.

Lemma to_designator_text_or_binary_witness :
  to_designator 2 [0x41; 0xFF; 0x00; 0x42] = Designator.String [0x41; 0xEF; 0xBF; 0xBD]
  /\ to_designator 5 [0x01; 0x02] = Designator.Binary [0x01; 0x02].
Proof.
  split.
  - rewrite (proj1 (proj1 (to_designator_text_or_binary 2 [0x41; 0xFF; 0x00; 0x42])
                      (or_introl eq_refl))).
    vm_compute. reflexivity.
  - apply (proj2 (to_designator_text_or_binary 5 [0x01; 0x02]));
      discriminate.
Defined.

(** * Further properties of the code *)

(** ** The descriptor loop, in full *)

Lemma des_desc_decode (b0 b1 b2 L : N) (payload more : list N) :
  length payload = N.to_nat L ->
  des_desc ([b0; b1; b2; L] ++ payload ++ more)
  = Done more (descriptor_of b0 b1 payload).
Proof.
  intros Hp. unfold des_desc. cbn [seq dd_byte0 dd_byte1 Datatypes.app].
  unfold take at 1. cbn [length Nat.ltb Nat.leb skipn firstn seq be_u8].
  unfold take. rewrite length_app, Hp.
  destruct (Nat.ltb_spec (N.to_nat L + length more) (N.to_nat L)); [lia|].
  rewrite <- Hp, skipn_app, firstn_app, skipn_all, Nat.sub_diag,
    firstn_all, firstn_O, app_nil_r.
  reflexivity.
Qed.



(** [many0!(des_desc)] on an encoded list of descriptors reads them all
    back, in order. *)
Lemma many0_encoded (rs : list raw_desc) :
  forall (fuel : nat) (acc0 : list DesignationDescriptor),
  (length (concat (map encode_raw rs)) < fuel)%nat ->
  many0 des_desc fuel (concat (map encode_raw rs)) acc0
  = Done [] (acc0 ++ map decode_raw rs).
Proof.
  induction rs as [|r rs IH]; intros fuel acc0 Hf.
  - destruct fuel as [|f]; [simpl in Hf; lia|].
    simpl. rewrite app_nil_r. reflexivity.
  - destruct fuel as [|f]; [simpl in Hf; lia|].
    cbn [map concat]. unfold encode_raw at 1.
    rewrite <- app_assoc.
    cbn [many0 Datatypes.app].
    pose proof (des_desc_decode (rd_b0 r) (rd_b1 r) (rd_b2 r)
                  (N.of_nat (length (rd_payload r))) (rd_payload r)
                  (concat (map encode_raw rs)) ltac:(lia)) as Hd.
    cbn [Datatypes.app] in Hd. rewrite Hd.
    destruct (list_eq_dec N.eq_dec _ _) as [E | _].
    + apply (f_equal (@length N)) in E. simpl in E.
      rewrite length_app in E. lia.
    + rewrite IH.
      * rewrite <- app_assoc. reflexivity.
      * cbn [map concat] in Hf. rewrite length_app in Hf.
        assert (length (encode_raw r) >= 1)%nat
          by (unfold encode_raw; simpl; lia).
        lia.
Qed.



(** [vpd83] on a page whose region holds encoded descriptors returns them
    all, decoded, in their order, and leaves the bytes after the region. *)
Theorem vpd83_reads_encoded_descriptors
    (q hi lo : N) (rs : list raw_desc) (trailing : list N) :
  hi * 256 + lo = N.of_nat (length (concat (map encode_raw rs))) ->
  vpd83 ([q; 0x83; hi; lo] ++ concat (map encode_raw rs) ++ trailing)
  = Done trailing {| qualifier := to_qualifier (N.land (N.shiftr q 5) 7);
                     device_type := to_device_type (N.land q 0x1f);
                     descriptors := map decode_raw rs |}.
Proof.
  intros Hn. set (enc := concat (map encode_raw rs)) in *.
  rewrite vpd83_header by (rewrite Hn, Nat2N.id, length_app; lia).
  rewrite Hn, Nat2N.id, firstn_app, firstn_all, Nat.sub_diag, firstn_O,
    app_nil_r, skipn_app, skipn_all, Nat.sub_diag, skipn_O.
  unfold des_descs, enc. rewrite many0_encoded by lia. reflexivity.
Qed.

Lemma vpd83_reads_encoded_descriptors_witness :
  vpd83 ([0x00; 0x83; 0x00; 0x0A; 0x21; 0x93; 0x00; 0x02; 0x41; 0x42;
          0x01; 0x00; 0x00; 0x00; 0xAA])
  = Done [0xAA] {| qualifier := PQ_Connected; device_type := DirectAccess;
                   descriptors :=
                     [decode_raw {| rd_b0 := 0x21; rd_b1 := 0x93; rd_b2 := 0;
                                    rd_payload := [0x41; 0x42] |};
                      decode_raw {| rd_b0 := 0x01; rd_b1 := 0x00; rd_b2 := 0;
                                    rd_payload := [] |}] |}.
Proof.
  exact (vpd83_reads_encoded_descriptors 0 0 10
           [{| rd_b0 := 0x21; rd_b1 := 0x93; rd_b2 := 0; rd_payload := [0x41; 0x42] |};
            {| rd_b0 := 0x01; rd_b1 := 0x00; rd_b2 := 0; rd_payload := [] |}]
           [0xAA] eq_refl).
Defined.



(** ** Page header failures *)

(** A page whose byte 1 is not 0x83 is refused by [tag!]: the parse is
    nom's [Tag] error, which [inquiry_vpd_83] returns as [Sg3Error::Nom]. *)
Theorem vpd83_wrong_page_code (q p : N) (rest : list N) :
  p <> 0x83 ->
  vpd83 (q :: p :: rest) = Error EK_Tag /\
  (forall (dev : device) (data : list N),
     dev (inquiry_vpd_cmd 0x83 1024) 1024%nat = Transferred data ->
     fill_buf (repeat 0 1024) data = q :: p :: rest ->
     inquiry_vpd_83 dev = Value (Err (Nom EK_Tag))).
Proof.
  intros Hp.
  assert (Hv : vpd83 (q :: p :: rest) = Error EK_Tag).
  { unfold vpd83. cbn [seq periph tag_83].
    destruct (N.eqb_spec p 0x83); [contradiction | reflexivity]. }
  split; [exact Hv|].
  intros dev data Hdev Hfill. unfold inquiry_vpd_83, inquiry_vpd.
  change (length (repeat 0 1024)) with 1024%nat.
  rewrite Hdev, Hfill, Hv. reflexivity.
Qed.

Lemma vpd83_wrong_page_code_witness :
  inquiry_vpd_83 (fun _ _ => Transferred [0x00; 0x80; 0x00; 0x05])
  = Value (Err (Nom EK_Tag)).
Proof.
  apply (proj2 (vpd83_wrong_page_code 0 0x80
                  ([0x00; 0x05] ++ repeat 0 1020) ltac:(discriminate))
           _ [0x00; 0x80; 0x00; 0x05]); vm_compute; reflexivity.
Defined.

(** When the declared descriptor length runs past the 1024-byte buffer
    (more than 1020 bytes after the header), [take!] reports [Incomplete]
    outside [complete!], and [to_result] panics. *)
Theorem inquiry_vpd_83_region_past_buffer_panics (dev : device) (data : list N) :
  dev (inquiry_vpd_cmd 0x83 1024) 1024%nat = Transferred data ->
  let buf := fill_buf (repeat 0 1024) data in
  nth 1 buf 0 = 0x83 ->
  1020 < nth 2 buf 0 * 256 + nth 3 buf 0 ->
  inquiry_vpd_83 dev = Panic ToResultIncomplete.
Proof.
  intros Hdev buf Hp Hn. unfold inquiry_vpd_83, inquiry_vpd.
  change (length (repeat 0 1024)) with 1024%nat. rewrite Hdev. fold buf.
  assert (Hlen : length buf = 1024%nat)
    by (unfold buf; rewrite fill_buf_length, repeat_length; reflexivity).
  destruct buf as [|q [|p [|hi [|lo tail]]]]; simpl in Hlen; try discriminate.
  simpl in Hp, Hn. subst p.
  unfold vpd83, length_value_descs.
  cbn [seq periph tag_83 be_u16 N.eqb Pos.eqb].
  unfold take.
  destruct (Nat.ltb_spec (length tail) (N.to_nat (hi * 256 + lo))).
  - reflexivity.
  - lia.
Qed.

Lemma inquiry_vpd_83_region_past_buffer_panics_witness :
  inquiry_vpd_83 (fun _ _ => Transferred [0x00; 0x83; 0x04; 0x00])
  = Panic ToResultIncomplete.
Proof.
  apply (inquiry_vpd_83_region_past_buffer_panics _ [0x00; 0x83; 0x04; 0x00]
           eq_refl); vm_compute; reflexivity.
Defined.

(** ** The SG_IO wrappers *)

(** [inquiry] sends [0x12, 0, 0, 0, 96, 0] for 96 bytes, hands a failed
    [open] or ioctl back as [Io] or [Nix], and never panics: the buffer it
    reads byte 3 of always keeps its 96 bytes. *)
Theorem inquiry_errors_and_no_panic (dev : device) :
  (exists r, inquiry dev = Value r) /\
  (forall e, dev [0x12; 0; 0; 0; 96; 0] 96%nat = OpenFailed e ->
   inquiry dev = Value (Err (Io e))) /\
  (forall e, dev [0x12; 0; 0; 0; 96; 0] 96%nat = IoctlFailed e ->
   inquiry dev = Value (Err (Nix e))).
Proof.
  unfold inquiry. cbn [si_buf std_inquiry_new].
  change (length (repeat 0 96)) with 96%nat.
  change (N.of_nat 96 mod 256) with 96.
  split; [|split; intros e H; rewrite H; reflexivity].
  destruct (dev [0x12; 0; 0; 0; 96; 0] 96%nat) as [e|e|data];
    try (eexists; reflexivity).
  unfold response_data_format. cbn [si_buf].
  rewrite index_in_range by (rewrite fill_buf_length, repeat_length; lia).
  cbn [bind_access]. destruct (negb _); eexists; reflexivity.
Qed.

Lemma inquiry_errors_and_no_panic_witness :
  inquiry (fun _ _ => IoctlFailed 5) = Value (Err (Nix 5)).
Proof.
  apply (proj2 (proj2 (inquiry_errors_and_no_panic (fun _ _ => IoctlFailed 5))) 5).
  reflexivity.
Defined.

(** [inquiry_vpd_80] asks for page 0x80 with a 96-byte allocation; on
    success the page keeps its 96 bytes, so the peripheral accessors never
    panic; transport failures come back as [Io] or [Nix]. *)
Theorem inquiry_vpd_80_shape (dev : device) :
  inquiry_vpd_cmd 0x80 96 = [0x12; 1; 0x80; 0; 96; 0] /\
  (forall v, inquiry_vpd_80 dev = Ok v ->
   length (v80_buf v) = 96%nat /\
   (exists pq, v80_peripheral_qualifier v = Value pq) /\
   (exists pdt, v80_peripheral_device_type v = Value pdt)) /\
  (forall e, dev [0x12; 1; 0x80; 0; 96; 0] 96%nat = OpenFailed e ->
   inquiry_vpd_80 dev = Err (Io e)) /\
  (forall e, dev [0x12; 1; 0x80; 0; 96; 0] 96%nat = IoctlFailed e ->
   inquiry_vpd_80 dev = Err (Nix e)).
Proof.
  unfold inquiry_vpd_80, inquiry_vpd. cbn [v80_buf inquiry_vpd80_new].
  change (length (repeat 0 96)) with 96%nat.
  change (inquiry_vpd_cmd 0x80 96) with [0x12; 1; 0x80; 0; 96; 0].
  split; [reflexivity|]. split.
  - intros v H.
    destruct (dev [0x12; 1; 0x80; 0; 96; 0] 96%nat) as [e|e|data];
      try discriminate.
    injection H as <-. cbn [v80_buf].
    assert (Hl : length (fill_buf (repeat 0 96) data) = 96%nat)
      by (rewrite fill_buf_length, repeat_length; reflexivity).
    split; [exact Hl|].
    unfold v80_peripheral_qualifier, v80_peripheral_device_type. cbn [v80_buf].
    rewrite index_in_range by (rewrite fill_buf_length; simpl; lia).
    cbn [bind_access].
    split; eexists; reflexivity.
  - split; intros e H; rewrite H; reflexivity.
Qed.

Lemma inquiry_vpd_80_shape_witness :
  inquiry_vpd_80 (fun _ _ => OpenFailed (IoOs 13)) = Err (Io (IoOs 13)).
Proof.
  apply (proj1 (proj2 (proj2 (inquiry_vpd_80_shape (fun _ _ => OpenFailed (IoOs 13))))) (IoOs 13)).
  reflexivity.
Defined.

(** ** Serial number by declared length *)

(** On the 96-byte page, a declared length of 0 panics ([buf[4..3]]), and
    a declared length [L] in 1..93 yields the [L - 1] bytes [buf[4..L+3]],
    or a panic when they are not UTF-8. *)
Theorem serial_number_by_declared_length (v : InquiryVpd80) :
  length (v80_buf v) = 96%nat ->
  let L := nth 2 (v80_buf v) 0 * 256 + nth 3 (v80_buf v) 0 in
  (L = 0 -> serial_number v = Panic SliceIndexOrder) /\
  (1 <= L <= 93 ->
   serial_number v =
   (if utf8_valid (firstn (N.to_nat L - 1) (skipn 4 (v80_buf v)))
    then Value (firstn (N.to_nat L - 1) (skipn 4 (v80_buf v)))
    else Panic UnwrapUtf8Error)).
Proof.
  intros Hlen L. unfold L. clear L.
  destruct (v80_buf v) as [|b0 [|b1 [|b2 [|b3 rest]]]] eqn:Hb;
    simpl in Hlen; try discriminate.
  cbn [nth skipn]. split.
  - intros H0. unfold serial_number. rewrite Hb. cbn [bind_access].
    rewrite slice_in_range by (simpl; lia).
    cbn [Nat.sub skipn firstn bind_access read_u16_be].
    rewrite H0. reflexivity.
  - intros HL. rewrite (serial_number_slice v b0 b1 b2 b3 rest Hb ltac:(lia) HL).
    reflexivity.
Qed.

Lemma serial_number_by_declared_length_witness :
  serial_number {| v80_buf := repeat 0 96 |} = Panic SliceIndexOrder.
Proof.
  apply (proj1 (serial_number_by_declared_length {| v80_buf := repeat 0 96 |}
                  eq_refl)).
  reflexivity.
Defined.

(** ** Bit fields of the standard INQUIRY page *)

Lemma shiftr_land_pow2 (b k : N) : N.shiftr (N.land b (2 ^ k)) k = bit b k.
Proof.
  apply N.bits_inj. intros i.
  rewrite N.shiftr_spec', N.land_spec, N.pow2_bits_eqb. unfold bit.
  destruct (N.eqb_spec k (i + k)) as [E | E].
  - assert (i = 0) by lia. subst i. rewrite N.add_0_l, andb_true_r.
    destruct (N.testbit b k); reflexivity.
  - rewrite andb_false_r.
    destruct (N.testbit b k).
    + destruct i as [|p]; [lia | reflexivity].
    + symmetry. apply N.bits_0.
Qed.

(** Every one-bit accessor returns the bit it names, as 0 or 1; [tpgs] is
    bits 5-4 of byte 5 and [version] is byte 2. *)
Theorem std_inquiry_flag_bits (s : StdInquiry) :
  length (si_buf s) = 96%nat ->
  let b i := nth i (si_buf s) 0 in
  rmb s = Value (bit (b 1%nat) 7) /\ lu_cong s = Value (bit (b 1%nat) 6) /\
  version s = Value (b 2%nat) /\ norm_aca s = Value (bit (b 3%nat) 5) /\
  sccs s = Value (bit (b 5%nat) 7) /\ acc s = Value (bit (b 5%nat) 6) /\
  tpgs s = Value (N.land (N.shiftr (b 5%nat) 4) 3) /\
  third_party_copy s = Value (bit (b 5%nat) 3) /\
  protect s = Value (bit (b 5%nat) 0) /\
  enc_serv s = Value (bit (b 6%nat) 6) /\ multi_p s = Value (bit (b 6%nat) 4) /\
  addr16 s = Value (bit (b 6%nat) 0) /\
  wbus16 s = Value (bit (b 7%nat) 5) /\ cmd_que s = Value (bit (b 7%nat) 1).
Proof.
  intros Hlen b.
  unfold rmb, lu_cong, version, norm_aca, sccs, acc, tpgs, third_party_copy,
    protect, enc_serv, multi_p, addr16, wbus16, cmd_que.
  rewrite !index_in_range by lia. cbn [bind_access]. unfold b.
  repeat split;
    first [ reflexivity
          | rewrite <- shiftr_land_pow2; reflexivity
          | rewrite N.shiftr_land; reflexivity ].
Qed.

Lemma std_inquiry_flag_bits_witness :
  tpgs {| si_buf := repeat 0 5 ++ [0x30] ++ repeat 0 90 |} = Value 3 /\
  sccs {| si_buf := repeat 0 5 ++ [0x80] ++ repeat 0 90 |} = Value 1.
Proof.
  split.
  - destruct (std_inquiry_flag_bits {| si_buf := repeat 0 5 ++ [0x30] ++ repeat 0 90 |}
                eq_refl) as (_ & _ & _ & _ & _ & _ & H & _).
    rewrite H. reflexivity.
  - destruct (std_inquiry_flag_bits {| si_buf := repeat 0 5 ++ [0x80] ++ repeat 0 90 |}
                eq_refl) as (_ & _ & _ & _ & H & _).
    rewrite H. reflexivity.
Defined.

Lemma to_qualifier_of_byte (q : N) :
  q < 256 ->
  (to_qualifier (N.shiftr q 5) = PQ_VS <-> 128 <= q) /\
  (to_qualifier (N.shiftr q 5) = PQ_Reserved <-> 64 <= q < 96).
Proof.
  intros Hq. rewrite N.shiftr_div_pow2. change (2 ^ 5) with 32.
  assert (Hk : q / 32 < 8) by (apply N.Div0.div_lt_upper_bound; lia).
  pose proof (N.Div0.div_mod q 32) as Hdm.
  pose proof (N.mod_lt q 32 ltac:(lia)) as Hm.
  set (m := q mod 32) in *. clearbody m.
  destruct (q / 32) as [|p] eqn:E.
  - cbn -[N.le N.lt]. split; split; intros; try discriminate; lia.
  - destruct p as [[[p|p|]|[p|p|]|]|[[p|p|]|[p|p|]|]|]; try lia; cbn -[N.le N.lt];
      split; split; intros; (discriminate || lia || reflexivity).
Qed.

(** The peripheral qualifier of the standard INQUIRY page, read from the top
    three bits of byte 0 (lines 194-197): a byte at or above 0x80 gives
    [VS], and [Reserved] comes exactly from the top bits 010; the catch-all
    arm of [to_qualifier] is never reached from a byte. *)
Theorem std_inquiry_qualifier_decoding (s : StdInquiry) :
  length (si_buf s) = 96%nat -> nth 0 (si_buf s) 0 < 256 ->
  (si_peripheral_qualifier s = Value PQ_VS <-> 128 <= nth 0 (si_buf s) 0) /\
  (si_peripheral_qualifier s = Value PQ_Reserved <->
     64 <= nth 0 (si_buf s) 0 < 96).
Proof.
  intros Hlen Hb. unfold si_peripheral_qualifier.
  rewrite index_in_range by lia. cbn [bind_access].
  destruct (to_qualifier_of_byte _ Hb) as [[V1 V2] [R1 R2]].
  split; split; intros H.
  - apply V1. congruence.
  - rewrite (V2 H). reflexivity.
  - apply R1. congruence.
  - rewrite (R2 H). reflexivity.
Qed.

Lemma std_inquiry_qualifier_decoding_witness :
  si_peripheral_qualifier {| si_buf := 0x40 :: repeat 0 95 |} = Value PQ_Reserved.
Proof.
  apply (std_inquiry_qualifier_decoding {| si_buf := 0x40 :: repeat 0 95 |}
           eq_refl ltac:(vm_compute; reflexivity)).
  cbn [nth si_buf]. lia.
Defined.

Lemma from_utf8_lossy_no_nul (l : list N) :
  ~ In 0 l -> ~ In 0 (from_utf8_lossy l).
Proof.
  remember (length l) as n eqn:En.
  revert l En. induction n as [n IH] using lt_wf_ind.
  intros l En Hl. rewrite from_utf8_lossy_step.
  destruct (next_chunk l) as [[c r]|] eqn:Hc; [|simpl; tauto].
  pose proof (next_chunk_shorter _ _ _ Hc) as Hlt.
  destruct (next_chunk_split _ _ _ Hc) as [Hsplit _].
  assert (Hr : ~ In 0 (from_utf8_lossy r)).
  { apply (IH (length r)); [lia | reflexivity |].
    intros H. apply Hl. rewrite Hsplit. apply in_or_app. right. exact H. }
  destruct c as [bs|bs]; cbn [chunk_bytes] in Hsplit;
    intros H; apply in_app_or in H as [H|H]; try contradiction.
  - apply Hl. rewrite Hsplit. apply in_or_app. left. exact H.
  - cbn in H. lia.
Qed.

(** [to_designator] (lines 419-425) produces a [String] only for the code
    set values 2 and 3, and that text never holds a NUL byte: the data is cut
    at its first NUL, and the lossy decoding adds no NUL of its own. *)
Theorem to_designator_string_no_nul (code : N) (data text : list N) :
  to_designator code data = Designator.String text ->
  (2 <= code <= 3) /\ ~ In 0 text.
Proof.
  unfold to_designator. intros H.
  destruct (N.leb_spec code 1); [discriminate|].
  destruct (N.leb_spec code 3); [|discriminate].
  injection H as <-. split; [lia|].
  apply from_utf8_lossy_no_nul.
  destruct (slice_to_null_spec data) as (rest & _ & Hn & _). exact Hn.
Qed.

Lemma to_designator_string_no_nul_witness :
  (2 <= 3 <= 3) /\ ~ In 0 [0x41].
Proof.
  apply (to_designator_string_no_nul 3 [0x41; 0; 0x42] [0x41]).
  reflexivity.
Defined.

(** The allocation length that [inquiry_vpd] writes into bytes 3..5 of its
    CDB (lines 289-294) reads back, big-endian, as the buffer length taken
    modulo 2^16, and both of its bytes fit in a [u8]. *)
Theorem inquiry_vpd_cmd_alloc_roundtrip (vpd : N) (len : nat) :
  (bs <- slice (inquiry_vpd_cmd vpd len) 3 5 ;; read_u16_be bs)
    = Value (N.of_nat len mod 65536) /\
  Forall (fun b => b < 256) (firstn 2 (skipn 3 (inquiry_vpd_cmd vpd len))).
Proof.
  unfold inquiry_vpd_cmd. set (a := N.of_nat len mod 65536).
  assert (Ha : a < 65536) by (apply N.mod_lt; discriminate).
  cbn [slice Nat.ltb Nat.leb length Nat.sub skipn firstn bind_access read_u16_be].
  assert (Hhi : N.shiftr a 8 = a / 256)
    by (rewrite N.shiftr_div_pow2; reflexivity).
  assert (Hlo : N.land a 0xff = a mod 256)
    by (change 0xff with (N.ones 8); rewrite N.land_ones; reflexivity).
  rewrite Hhi, Hlo. split.
  - f_equal. rewrite N.mul_comm. symmetry. apply N.Div0.div_mod.
  - repeat constructor.
    + apply N.Div0.div_lt_upper_bound. lia.
    + apply N.mod_lt. discriminate.
Qed.


